(** * SocialNest server: request handlers over a document store

    A shallow embedding of [src/index.js]: the [authenticate] middleware and
    the Express handlers registered in [run], written as functions that pass
    the store explicitly.

    Conventions of the embedding
    - A JavaScript value that reaches the handlers from JSON (token claims,
      request body members) is a [JsVal]: a JSON scalar or [undefined].
      Members that are themselves objects or arrays are kept only where the
      code just checks truthiness and stores them ([Json]).  What the join
      handler does with an email that is an object is in [Wide].
    - The three MongoDB collections are lists of documents in insertion
      order.  [_id] of an event is an [ObjectId]; the store refuses a second
      document with the same [_id] (the unique index every collection has).
      Join and user documents are written without their generated [_id],
      which no handler reads ([GET] projections drop it with [_id: 0]).
    - The readings of [new Date()] and the identifier the driver generates
      for an inserted event come with the request ([Env]).
    - What the JavaScript runtime and the database engine provide (base64 and
      JSON decoding, the [Date] constructor, the regular-expression engine)
      is a parameter of the development. *)

From Stdlib Require Import ZArith NArith Ascii String List Lia.
From stdpp Require Import base decidable option list strings sorting.

Local Open Scope string_scope.
Local Open Scope Z_scope.
Local Open Scope list_scope.

(** ** JavaScript values *)

Inductive JsVal :=
  | JUndefined
  | JNull
  | JBool (b : bool)
  | JNum (n : Z)
  | JStr (s : string).

#[global] Instance JsVal_eq_dec : EqDecision JsVal.
Proof. solve_decision. Defined.

(** [!!v] in JavaScript. *)
Definition truthy (v : JsVal) : bool :=
  match v with
  | JUndefined | JNull => false
  | JBool b => b
  | JNum n => negb (n =? 0)
  | JStr s => negb (String.eqb s "")
  end.

(** [a || b]. *)
Definition js_or (a b : JsVal) : JsVal := if truthy a then a else b.

(** [a === b] on primitives. *)
Definition strict_eq (a b : JsVal) : bool := bool_decide (a = b).

(** An object literal whose members are scalars, in member order. *)
Definition Obj := list (string * JsVal).

(** [o.k]: the member, or [undefined]. *)
Fixpoint prop (o : Obj) (k : string) : JsVal :=
  match o with
  | [] => JUndefined
  | (k', v) :: o' => if String.eqb k' k then v else prop o' k
  end.

(** What [JSON.parse] yields: a scalar, an object, or an array. *)
Inductive Json :=
  | JsonScalar (v : JsVal)
  | JsonObject (o : Obj)
  | JsonArray.

Definition json_truthy (j : Json) : bool :=
  match j with
  | JsonScalar v => truthy v
  | JsonObject _ | JsonArray => true
  end.

Definition json_or (a b : Json) : Json := if json_truthy a then a else b.

(** [j.k] for a parsed value; [None] is the TypeError of reading a member
    of [null]. *)
Definition member (j : Json) (k : string) : option JsVal :=
  match j with
  | JsonScalar JNull | JsonScalar JUndefined => None
  | JsonScalar _ | JsonArray => Some JUndefined
  | JsonObject o => Some (prop o k)
  end.

(** What BSON serialisation does to a member: [undefined] is stored as
    [null]. *)
Definition bson (v : JsVal) : JsVal :=
  match v with
  | JUndefined => JNull
  | _ => v
  end.

(** ** Strings *)

(** [s.split(sep)] for a one-character separator. *)
Fixpoint split (sep : ascii) (s : string) : list string :=
  match s with
  | EmptyString => [EmptyString]
  | String c s' =>
      if Ascii.eqb c sep then EmptyString :: split sep s'
      else match split sep s' with
           | [] => [String c EmptyString]
           | w :: ws => String c w :: ws
           end
  end.

Definition startsWith (s p : string) : bool := String.prefix p s.

Definition is_space (c : ascii) : bool :=
  let n := nat_of_ascii c in
  ((n =? 32) || ((9 <=? n) && (n <=? 13)))%nat.

(** The number of bytes of the white-space character a string held as UTF-8
    starts with, or 0: the one-byte characters of [is_space] and the
    encodings of U+00A0, U+1680, U+2000 to U+200A, U+2028, U+2029, U+202F,
    U+205F, U+3000 and U+FEFF. *)
Definition space_bytes (s : string) : nat :=
  match s with
  | EmptyString => 0%nat
  | String c s1 =>
      if is_space c then 1%nat
      else
        match s1 with
        | String d s2 =>
            let c := N_of_ascii c in
            let d := N_of_ascii d in
            if (c =? 194)%N && (d =? 160)%N then 2%nat
            else
              match s2 with
              | String e _ =>
                  let e := N_of_ascii e in
                  if ((c =? 225) && (d =? 154) && (e =? 128))%N
                     || ((c =? 226) && (d =? 128)
                         && (((128 <=? e) && (e <=? 138))
                             || (e =? 168) || (e =? 169) || (e =? 175)))%N
                     || ((c =? 226) && (d =? 129) && (e =? 159))%N
                     || ((c =? 227) && (d =? 128) && (e =? 128))%N
                     || ((c =? 239) && (d =? 187) && (e =? 191))%N
                  then 3%nat else 0%nat
              | EmptyString => 0%nat
              end
        | EmptyString => 0%nat
        end
  end.

(** [pending] bytes of a white-space character are still to be dropped. *)
Fixpoint skip_spaces_from (pending : nat) (s : string) : string :=
  match s with
  | EmptyString => s
  | String _ s' =>
      match pending with
      | S k => skip_spaces_from k s'
      | O =>
          match space_bytes s with
          | O => s
          | S k => skip_spaces_from k s'
          end
      end
  end.

Definition skip_spaces (s : string) : string := skip_spaces_from 0 s.

Definition digit_value (radix : Z) (c : ascii) : option Z :=
  let n := Z.of_nat (nat_of_ascii c) in
  let d :=
    if (48 <=? n) && (n <=? 57) then Some (n - 48)
    else if (97 <=? n) && (n <=? 122) then Some (n - 87)
    else if (65 <=? n) && (n <=? 90) then Some (n - 55)
    else None in
  match d with
  | Some v => if v <? radix then Some v else None
  | None => None
  end.

(** The longest prefix of digits; [acc] is [None] until a digit was read. *)
Fixpoint parse_digits (radix : Z) (acc : option Z) (s : string) : option Z :=
  match s with
  | EmptyString => acc
  | String c s' =>
      match digit_value radix c with
      | Some d => parse_digits radix (Some (radix * default 0 acc + d)) s'
      | None => acc
      end
  end.

(** [parseInt(v)] for a query parameter; [None] is [NaN].  The value is the
    integer the digits spell; the runtime holds it as the nearest double. *)
Definition parseInt (v : option string) : option Z :=
  match v with
  | None => None
  | Some s =>
      let s := skip_spaces s in
      let '(sign, s) :=
        match s with
        | String "-" r => (-1, r)
        | String "+" r => (1, r)
        | _ => (1, s)
        end in
      let '(radix, s) :=
        match s with
        | String "0" (String "x" r) => (16, r)
        | String "0" (String "X" r) => (16, r)
        | _ => (10, s)
        end in
      Z.mul sign <$> parse_digits radix None s
  end.

(** ** Identity *)

Module User.
Record t := mk { email : JsVal; displayName : JsVal; photoURL : JsVal }.
End User.

Inductive AuthResult :=
  | AuthNext (user : User.t)
  | AuthReject (status : nat) (error : string).

Section Authenticate.

(** [JSON.parse(Buffer.from(payload, "base64").toString())]; [None] when
    it throws. *)
Variable decode_payload : string -> option Json.

Definition identity_of (decodedPayload : Json) : AuthResult :=
  match member decodedPayload "email" with
  | None => AuthReject 401 "Invalid token format"
  | Some e =>
      if negb (truthy e) then AuthReject 401 "Invalid token format"
      else
        AuthNext
          {| User.email := e;
             User.displayName :=
               js_or (default JUndefined (member decodedPayload "name"))
                     (JStr "Anonymous");
             User.photoURL :=
               js_or (default JUndefined (member decodedPayload "picture"))
                     JNull |}
  end.

Definition authenticate (authorization : option string) : AuthResult :=
  match authorization with
  | None => AuthReject 401 "Unauthorized - No token provided"
  | Some authHeader =>
      if negb (startsWith authHeader "Bearer ") then
        AuthReject 401 "Unauthorized - No token provided"
      else
        match split " " authHeader !! 1%nat with
        | None => AuthReject 401 "Invalid token"
        | Some token =>
            if String.eqb token "" then AuthReject 401 "Invalid token"
            else
              match split "." token !! 1%nat with
              | None => AuthReject 401 "Invalid token format"
              | Some payload =>
                  match decode_payload payload with
                  | None => AuthReject 401 "Invalid token format"
                  | Some decodedPayload => identity_of decodedPayload
                  end
              end
        end
  end.

End Authenticate.

(** ** Documents *)

Definition ObjectId := N.
Definition Date := Z.

(** [new ObjectId(s)] for a string, as the driver the handlers are written
    for has it: a 24-character hexadecimal string gives the identifier it
    spells, a string of 12 one-byte characters gives the identifier made of
    those 12 bytes, and on any other string the constructor throws
    ([None]). *)
Fixpoint hex_value (acc : N) (s : string) : option N :=
  match s with
  | EmptyString => Some acc
  | String c s' =>
      match digit_value 16 c with
      | Some d => hex_value (16 * acc + Z.to_N d)%N s'
      | None => None
      end
  end.

Fixpoint bytes_value (acc : N) (s : string) : option N :=
  match s with
  | EmptyString => Some acc
  | String c s' =>
      if (N_of_ascii c <? 128)%N
      then bytes_value (256 * acc + N_of_ascii c)%N s'
      else None
  end.

Definition ObjectId_of_string (s : string) : option ObjectId :=
  if (String.length s =? 24)%nat then hex_value 0%N s
  else if (String.length s =? 12)%nat then bytes_value 0%N s
  else None.

Module Event.
Record t := mk {
  _id : ObjectId;
  title : JsVal;
  description : JsVal;
  eventType : JsVal;
  thumbnailImage : JsVal;
  location : JsVal;
  eventDate : Date;
  userEmail : JsVal;
  userName : JsVal;
  userPhotoURL : JsVal;
  createdAt : Date;
  updatedAt : Date
}.
End Event.

Module Join.
Record t := mk {
  eventId : ObjectId;
  userEmail : JsVal;
  userName : JsVal;
  userPhotoURL : JsVal;
  joinedAt : Date
}.
End Join.

Module Profile.
Record t := mk {
  email : JsVal;
  displayName : JsVal;
  photoURL : JsVal;
  preferences : Json;
  updatedAt : Date
}.
End Profile.

(** The destructured body of [POST /events] and [PUT /events/:id]; an absent
    member is [JUndefined]. *)
Module EventBody.
Record t := mk {
  title : JsVal;
  description : JsVal;
  eventType : JsVal;
  thumbnailImage : JsVal;
  location : JsVal;
  eventDate : JsVal
}.
End EventBody.

(** The destructured body of [POST /users]. *)
Module ProfileBody.
Record t := mk {
  displayName : JsVal;
  photoURL : JsVal;
  preferences : Json
}.
End ProfileBody.

(** The result of [.project({ _id: 0, userEmail: 1, userName: 1,
    userPhotoURL: 1 })], with [joinedAt] when the projection asks for it. *)
Module Participant.
Record t := mk {
  userEmail : JsVal;
  userName : JsVal;
  userPhotoURL : JsVal;
  joinedAt : option Date
}.
End Participant.

(** An event as the read endpoints answer it: the stored members, the
    [participants] array, and [participantsCount] when the member is
    there. *)
Module EventView.
Record t := mk {
  event : Event.t;
  participants : list Participant.t;
  participantsCount : option nat
}.
End EventView.

#[global] Instance Json_eq_dec : EqDecision Json.
Proof. solve_decision. Defined.
#[global] Instance Event_eq_dec : EqDecision Event.t.
Proof. solve_decision. Defined.
#[global] Instance Join_eq_dec : EqDecision Join.t.
Proof. solve_decision. Defined.

(** ** The store *)

Record Store := mkStore {
  events : list Event.t;
  joinedEvents : list Join.t;
  users : list Profile.t
}.

Definition empty_store : Store := mkStore [] [] [].

(** [collection.findOne(filter)]: the first document that matches. *)
Definition findOne {A} (P : A -> Prop) `{forall x, Decision (P x)}
    (l : list A) : option A :=
  head (filter P l).

(** [collection.updateOne(filter, { $set })] on the first match. *)
Fixpoint update_first {A} (P : A -> Prop) `{forall x, Decision (P x)}
    (f : A -> A) (l : list A) : list A :=
  match l with
  | [] => []
  | x :: l' => if decide (P x) then f x :: l' else x :: update_first P f l'
  end.

Definition has_id (oid : ObjectId) (e : Event.t) : Prop := Event._id e = oid.

#[global] Instance has_id_dec oid e : Decision (has_id oid e).
Proof. unfold has_id. apply _. Defined.

Definition findOne_event (oid : ObjectId) (st : Store) : option Event.t :=
  findOne (has_id oid) (events st).

(** [eventsCollection.insertOne(event)]: refused ([None], the driver throws
    a duplicate-key error) when the identifier is taken. *)
Definition insertOne_event (e : Event.t) (st : Store) : option Store :=
  match findOne_event (Event._id e) st with
  | Some _ => None
  | None => Some (mkStore (events st ++ [e]) (joinedEvents st) (users st))
  end.

Definition set_event (oid : ObjectId) (f : Event.t -> Event.t) (st : Store)
    : Store :=
  mkStore (update_first (has_id oid) f (events st)) (joinedEvents st)
          (users st).

Definition joined_by (oid : ObjectId) (email : JsVal) (j : Join.t) : Prop :=
  Join.eventId j = oid /\ Join.userEmail j = email.

#[global] Instance joined_by_dec oid email j : Decision (joined_by oid email j).
Proof. unfold joined_by. apply _. Defined.

Definition joins_of (oid : ObjectId) (j : Join.t) : Prop := Join.eventId j = oid.

#[global] Instance joins_of_dec oid j : Decision (joins_of oid j).
Proof. unfold joins_of. apply _. Defined.

Definition insertOne_join (j : Join.t) (st : Store) : Store :=
  mkStore (events st) (joinedEvents st ++ [j]) (users st).

Definition has_email (email : JsVal) (u : Profile.t) : Prop :=
  Profile.email u = email.

#[global] Instance has_email_dec email u : Decision (has_email email u).
Proof. unfold has_email. apply _. Defined.

(** [usersCollection.updateOne({ email }, { $set: d }, { upsert: true })]
    where [d] gives every member of the profile. *)
Definition upsert_user (email : JsVal) (d : Profile.t) (st : Store) : Store :=
  mkStore (events st) (joinedEvents st)
    (match findOne (has_email email) (users st) with
     | Some _ => update_first (has_email email) (fun _ => d) (users st)
     | None => users st ++ [d]
     end).

(** [.sort({ eventDate: 1 })] and [.sort({ joinedAt: -1 })]. *)
Definition by_eventDate (e1 e2 : Event.t) : Prop :=
  Event.eventDate e1 <= Event.eventDate e2.

#[global] Instance by_eventDate_dec e1 e2 : Decision (by_eventDate e1 e2).
Proof. unfold by_eventDate. apply _. Defined.

Definition by_joinedAt_desc (j1 j2 : Join.t) : Prop :=
  Join.joinedAt j2 <= Join.joinedAt j1.

#[global] Instance by_joinedAt_desc_dec j1 j2 : Decision (by_joinedAt_desc j1 j2).
Proof. unfold by_joinedAt_desc. apply _. Defined.

(** [.limit(n)]: [0] is no limit; a negative [n] asks for [|n|] documents. *)
Definition cursor_limit {A} (n : Z) (l : list A) : list A :=
  if n =? 0 then l else take (Z.to_nat (Z.abs n)) l.

(** ** Responses *)

Inductive Body :=
  | ErrorBody (error : string)
  | MessageBody (message : string)
  | TextBody (text : string)
  | EventBody (e : Event.t)
  | EventsBody (es : list Event.t)
  | EventViewBody (v : EventView.t)
  | EventViewsBody (vs : list EventView.t)
  | UserBody (u : option Profile.t).

Record Response := mkResponse { status : nat; body : Body }.

(** The event views a response carries. *)
Definition views_of (r : Response) : list EventView.t :=
  match body r with
  | EventViewBody v => [v]
  | EventViewsBody vs => vs
  | _ => []
  end.

(** What a request gets from outside: the readings of [new Date()] in the
    order the handler takes them ([now], then [now2], then [now3]; only
    [POST /events] reads the clock more than once), and the identifier the
    driver generates for an inserted event. *)
Record Env := mkEnv {
  now : Date;
  fresh_id : ObjectId;
  now2 : Date;
  now3 : Date
}.

Record EventsQuery := mkQuery {
  type : option string;
  search : option string;
  limit : option string
}.

(** Truthiness of a query parameter: present and not empty. *)
Definition given (p : option string) : option string :=
  match p with
  | Some s => if String.eqb s "" then None else Some s
  | None => None
  end.

(** ** Handlers *)

Definition error (code : nat) (msg : string) : Response :=
  mkResponse code (ErrorBody msg).

Definition project (j : Join.t) : Participant.t :=
  {| Participant.userEmail := Join.userEmail j;
     Participant.userName := Join.userName j;
     Participant.userPhotoURL := Join.userPhotoURL j;
     Participant.joinedAt := None |}.

Definition project_joinedAt (j : Join.t) : Participant.t :=
  {| Participant.userEmail := Join.userEmail j;
     Participant.userName := Join.userName j;
     Participant.userPhotoURL := Join.userPhotoURL j;
     Participant.joinedAt := Some (Join.joinedAt j) |}.

(** The callback of [events.map] in [GET /events] and [GET /manage/events]:
    [{ ...event, participants, participantsCount: participants.length }]. *)
Definition enrich (st : Store) (event : Event.t) : EventView.t :=
  let participants :=
    project <$> filter (joins_of (Event._id event)) (joinedEvents st) in
  {| EventView.event := event;
     EventView.participants := participants;
     EventView.participantsCount := Some (length participants) |}.

Definition default_preferences : Json :=
  JsonObject [("notifications", JBool true); ("emailUpdates", JBool true)].

(** The filter document [GET /events] builds. *)
Definition events_query (env : Env) (q : EventsQuery)
    (title_matches : string -> bool) (e : Event.t) : Prop :=
  now env <= Event.eventDate e
  /\ match given (type q) with
     | Some t => Event.eventType e = JStr t
     | None => True
     end
  /\ match given (search q) with
     | Some _ =>
         match Event.title e with
         | JStr s => title_matches s = true
         | _ => False
         end
     | None => True
     end.

#[global] Instance events_query_dec env q m e :
  Decision (events_query env q m e).
Proof.
  unfold events_query.
  destruct (given (type q)), (given (search q)), (Event.title e); apply _.
Defined.

Inductive Route :=
  | PostUsers (body : ProfileBody.t)
  | GetUser (email : string)
  | GetEvents (query : EventsQuery)
  | GetEvent (id : string)
  | PostEvents (body : EventBody.t)
  | PutEvent (id : string) (body : EventBody.t)
  | PostJoin (id : string)
  | GetJoinedEvents
  | GetManageEvents
  | GetRoot.

Record Request := mkRequest {
  authorization : option string;
  route : Route;
  env : Env
}.

Section Handlers.

(** [new Date(v)] as the store keeps it, in milliseconds. *)
Variable newDate : JsVal -> Date.

(** The engine's case-insensitive search for a pattern: the predicate on
    subject strings, or [None] when the engine rejects the pattern. *)
Variable regex_i : string -> option (string -> bool).

Variable decode_payload : string -> option Json.

(** [app.post("/users", authenticate, ...)] *)
Definition post_users (env : Env) (user : User.t) (body : ProfileBody.t)
    (st : Store) : Store * Response :=
  let updateData :=
    {| Profile.email := bson (User.email user);
       Profile.displayName :=
         bson (js_or (ProfileBody.displayName body) (User.displayName user));
       Profile.photoURL :=
         bson (js_or (ProfileBody.photoURL body) (User.photoURL user));
       Profile.preferences :=
         json_or (ProfileBody.preferences body) default_preferences;
       Profile.updatedAt := now env |} in
  let st' := upsert_user (bson (User.email user)) updateData st in
  let updatedUser := findOne (has_email (bson (User.email user))) (users st') in
  (st', mkResponse 200 (UserBody updatedUser)).

(** [app.get("/users/:email", authenticate, ...)] *)
Definition get_user (user : User.t) (email : string) (st : Store)
    : Response :=
  if negb (strict_eq (JStr email) (User.email user)) then
    error 403 "Unauthorized - Can only access own profile"
  else
    match findOne (has_email (JStr email)) (users st) with
    | None => error 404 "User not found"
    | Some u => mkResponse 200 (UserBody (Some u))
    end.

(** [app.get("/events", ...)] *)
Definition get_events (env : Env) (q : EventsQuery) (st : Store)
    : Response :=
  let compiled :=
    match given (search q) with
    | Some s => regex_i s
    | None => Some (fun _ => true)
    end in
  match compiled with
  | None => error 500 "Server error"
  | Some title_matches =>
      let events :=
        cursor_limit (default 0 (parseInt (limit q)))
          (merge_sort by_eventDate
             (filter (events_query env q title_matches) (events st))) in
      mkResponse 200 (EventViewsBody (enrich st <$> events))
  end.

(** [app.get("/events/:id", ...)] *)
Definition get_event (id : string) (st : Store) : Response :=
  match ObjectId_of_string id with
  | None => error 500 "Server error"
  | Some eventId =>
      match findOne_event eventId st with
      | None => error 404 "Event not found"
      | Some event =>
          let participants :=
            project_joinedAt <$> filter (joins_of eventId) (joinedEvents st) in
          mkResponse 200
            (EventViewBody
               {| EventView.event := event;
                  EventView.participants := participants;
                  EventView.participantsCount := None |})
      end
  end.

(** [app.post("/events", authenticate, ...)] *)
Definition post_events (env : Env) (user : User.t) (body : EventBody.t)
    (st : Store) : Store * Response :=
  if negb (truthy (EventBody.title body))
     || negb (truthy (EventBody.description body))
     || negb (truthy (EventBody.eventType body))
     || negb (truthy (EventBody.location body))
     || negb (truthy (EventBody.eventDate body))
  then (st, error 400 "Missing required fields")
  else
    let event :=
      {| Event._id := fresh_id env;
         Event.title := bson (EventBody.title body);
         Event.description := bson (EventBody.description body);
         Event.eventType := bson (EventBody.eventType body);
         Event.thumbnailImage := bson (EventBody.thumbnailImage body);
         Event.location := bson (EventBody.location body);
         Event.eventDate := newDate (EventBody.eventDate body);
         Event.userEmail := bson (User.email user);
         Event.userName := bson (User.displayName user);
         Event.userPhotoURL := bson (User.photoURL user);
         Event.createdAt := now env;
         Event.updatedAt := now2 env |} in
    match insertOne_event event st with
    | None => (st, error 400 "Invalid data")
    | Some st1 =>
        match findOne_event (fresh_id env) st1 with
        | None => (st1, error 400 "Invalid data")
        | Some insertedEvent =>
            let joinData :=
              {| Join.eventId := Event._id insertedEvent;
                 Join.userEmail := bson (User.email user);
                 Join.userName := bson (User.displayName user);
                 Join.userPhotoURL := bson (User.photoURL user);
                 Join.joinedAt := now3 env |} in
            (insertOne_join joinData st1,
             mkResponse 201 (EventBody insertedEvent))
        end
    end.

(** The [$set] of [PUT /events/:id] applied to the stored [event]. *)
Definition updateData (env : Env) (body : EventBody.t) (event : Event.t)
    : Event.t :=
  {| Event._id := Event._id event;
     Event.title := bson (js_or (EventBody.title body) (Event.title event));
     Event.description :=
       bson (js_or (EventBody.description body) (Event.description event));
     Event.eventType :=
       bson (js_or (EventBody.eventType body) (Event.eventType event));
     Event.thumbnailImage :=
       bson (js_or (EventBody.thumbnailImage body)
                   (Event.thumbnailImage event));
     Event.location :=
       bson (js_or (EventBody.location body) (Event.location event));
     Event.eventDate :=
       if truthy (EventBody.eventDate body)
       then newDate (EventBody.eventDate body)
       else Event.eventDate event;
     Event.userEmail := Event.userEmail event;
     Event.userName := Event.userName event;
     Event.userPhotoURL := Event.userPhotoURL event;
     Event.createdAt := Event.createdAt event;
     Event.updatedAt := now env |}.

(** [app.put("/events/:id", authenticate, ...)] *)
Definition put_event (env : Env) (user : User.t) (id : string)
    (body : EventBody.t) (st : Store) : Store * Response :=
  match ObjectId_of_string id with
  | None => (st, error 500 "Server error")
  | Some eventId =>
      match findOne_event eventId st with
      | None => (st, error 404 "Event not found")
      | Some event =>
          if negb (strict_eq (Event.userEmail event) (User.email user)) then
            (st, error 403 "Unauthorized - Can only update own events")
          else
            (set_event eventId (updateData env body) st,
             mkResponse 200 (EventBody (updateData env body event)))
      end
  end.

(** [app.post("/events/:id/join", authenticate, ...)] *)
Definition post_join (env : Env) (user : User.t) (id : string) (st : Store)
    : Store * Response :=
  match ObjectId_of_string id with
  | None => (st, error 500 "Server error")
  | Some eventId =>
      match findOne_event eventId st with
      | None => (st, error 404 "Event not found")
      | Some event =>
          match findOne (joined_by eventId (bson (User.email user)))
                        (joinedEvents st) with
          | Some existingJoin => (st, error 406 "Already joined this event")
          | None =>
              let joinData :=
                {| Join.eventId := eventId;
                   Join.userEmail := bson (User.email user);
                   Join.userName := bson (User.displayName user);
                   Join.userPhotoURL := bson (User.photoURL user);
                   Join.joinedAt := now env |} in
              (insertOne_join joinData st,
               mkResponse 201 (MessageBody "Successfully joined event"))
          end
      end
  end.

(** [app.get("/joined/events", authenticate, ...)] *)
Definition get_joined_events (user : User.t) (st : Store) : Response :=
  let joinedEvents :=
    merge_sort by_joinedAt_desc
      (filter (fun j => Join.userEmail j = bson (User.email user))
              (joinedEvents st)) in
  let eventIds := Join.eventId <$> joinedEvents in
  let events :=
    merge_sort by_eventDate
      (filter (fun e => Event._id e ∈ eventIds) (events st)) in
  mkResponse 200 (EventsBody events).

(** [app.get("/manage/events", authenticate, ...)] *)
Definition get_manage_events (user : User.t) (st : Store) : Response :=
  let events :=
    merge_sort by_eventDate
      (filter (fun e => Event.userEmail e = bson (User.email user))
              (events st)) in
  mkResponse 200 (EventViewsBody (enrich st <$> events)).

(** ** Routing *)

(** A route registered with the [authenticate] middleware. *)
Definition protected (req : Request)
    (handler : User.t -> Store * Response) (st : Store)
    : Store * Response :=
  match authenticate decode_payload (authorization req) with
  | AuthReject code msg => (st, error code msg)
  | AuthNext user => handler user
  end.

Definition serve (req : Request) (st : Store) : Store * Response :=
  match route req with
  | PostUsers body =>
      protected req (fun user => post_users (env req) user body st) st
  | GetUser email =>
      protected req (fun user => (st, get_user user email st)) st
  | GetEvents query => (st, get_events (env req) query st)
  | GetEvent id => (st, get_event id st)
  | PostEvents body =>
      protected req (fun user => post_events (env req) user body st) st
  | PutEvent id body =>
      protected req (fun user => put_event (env req) user id body st) st
  | PostJoin id =>
      protected req (fun user => post_join (env req) user id st) st
  | GetJoinedEvents =>
      protected req (fun user => (st, get_joined_events user st)) st
  | GetManageEvents =>
      protected req (fun user => (st, get_manage_events user st)) st
  | GetRoot =>
      (st, mkResponse 200 (TextBody "Social Events Platform Server is Running"))
  end.

(** Requests handled one after the other. *)
Fixpoint serve_all (reqs : list Request) (st : Store) : Store :=
  match reqs with
  | [] => st
  | req :: reqs' => serve_all reqs' (fst (serve req st))
  end.

End Handlers.

(** ** Title search: what the specification says, and an engine fragment *)

Definition lower (c : ascii) : ascii :=
  let n := nat_of_ascii c in
  if ((65 <=? n) && (n <=? 90))%nat then ascii_of_nat (n + 32) else c.



(** Characters with a meaning of their own in a pattern, the dot apart. *)
Definition is_operator (c : ascii) : bool :=
  bool_decide (c ∈ ["\"; "^"; "$"; "|"; "?"; "*"; "+"; "("; ")"; "["; "]";
                    "{"; "}"]%char).

Definition char_matches (p c : ascii) : bool :=
  if Ascii.eqb p "." then negb (Ascii.eqb c "010")
  else Ascii.eqb (lower p) (lower c).

Fixpoint matches_here (p t : string) : bool :=
  match p, t with
  | EmptyString, _ => true
  | String a p', String c t' => char_matches a c && matches_here p' t'
  | String _ _, EmptyString => false
  end.

Fixpoint matches_somewhere (p t : string) : bool :=
  matches_here p t
  || match t with
     | EmptyString => false
     | String _ t' => matches_somewhere p t'
     end.

Fixpoint all_chars (f : ascii -> bool) (s : string) : bool :=
  match s with
  | EmptyString => true
  | String c s' => f c && all_chars f s'
  end.

(** The engine on the patterns made of ordinary characters and dots, the dot
    standing for any character but a line feed.  A pattern that uses another
    operator is outside this fragment and gets [None], which is also what the
    engine answers to a pattern it cannot compile, such as ["("]. *)
Definition dotted_regex_i (p : string) : option (string -> bool) :=
  if all_chars (fun c => negb (is_operator c)) p
  then Some (matches_somewhere p)
  else None.

(** ** Invariants of the join collection *)

Definition join_key (j : Join.t) : ObjectId * JsVal :=
  (Join.eventId j, Join.userEmail j).

(** At most one join document per (eventId, userEmail). *)
Definition joins_unique (st : Store) : Prop :=
  NoDup (join_key <$> joinedEvents st).

(** Every join document names a stored event. *)
Definition joins_refer (st : Store) : Prop :=
  forall j, j ∈ joinedEvents st -> is_Some (findOne_event (Join.eventId j) st).

Definition store_ok (st : Store) : Prop := joins_unique st /\ joins_refer st.

(** ** Sample data *)

Module Sample.

(** The decoder on three tokens' payload segments. *)
Definition decode (payload : string) : option Json :=
  if String.eqb payload "eyJlbWFpbCI6ImFubkBuZXN0LmlvIiwibmFtZSI6IkFubiJ9"
  then Some (JsonObject [("email", JStr "ann@nest.io"); ("name", JStr "Ann")])
  else if String.eqb payload "eyJlbWFpbCI6ImJvYkBuZXN0LmlvIn0"
  then Some (JsonObject [("email", JStr "bob@nest.io")])
  else if String.eqb payload "eyJlbWFpbCI6IiJ9"
  then Some (JsonObject [("email", JStr "")])
  else None.

(** Dates given as a number of milliseconds. *)
Definition newDate (v : JsVal) : Date :=
  match v with
  | JNum n => n
  | _ => 0
  end.

Definition ann_token : string :=
  "Bearer h.eyJlbWFpbCI6ImFubkBuZXN0LmlvIiwibmFtZSI6IkFubiJ9.s".
Definition bob_token : string := "Bearer h.eyJlbWFpbCI6ImJvYkBuZXN0LmlvIn0.s".
Definition empty_email_token : string := "Bearer h.eyJlbWFpbCI6IiJ9.s".

Definition ann : User.t := User.mk (JStr "ann@nest.io") (JStr "Ann") JNull.
Definition bob : User.t :=
  User.mk (JStr "bob@nest.io") (JStr "Anonymous") JNull.

Definition id1 : string := "000000000000000000000001".

Definition picnic : EventBody.t :=
  EventBody.mk (JStr "Picnic") (JStr "In the park") (JStr "Social")
               JUndefined (JStr "Dhaka") (JNum 5000).

Definition cleanup : Event.t :=
  Event.mk 1%N (JStr "abc") (JStr "River bank") (JStr "Cleanup") JNull
           (JStr "Sylhet") 9000 (JStr "ann@nest.io") (JStr "Ann") JNull
           100 100.

Definition ann_joined : Join.t :=
  Join.mk 1%N (JStr "ann@nest.io") (JStr "Ann") JNull 100.

Definition store1 : Store := mkStore [cleanup] [ann_joined] [].

Definition at_ (t : Z) (n : N) : Env := mkEnv t n t t.

End Sample.

(** ** Joining when the token's email is not a scalar *)

(** [authenticate] passes on whatever truthy [email] the payload has, an
    object included, and the join handler puts it unchanged into its filter
    and into the document it inserts.  This module has the identity, the
    join documents and [POST /events/:id/join] with the email as any JSON
    value. *)
Module Wide.

Record Identity := mkIdentity {
  email : Json;
  displayName : JsVal;
  photoURL : JsVal
}.

Record Join := mkJoin {
  eventId : ObjectId;
  userEmail : Json;
  userName : JsVal;
  userPhotoURL : JsVal;
  joinedAt : Date
}.

Record Store := mkStore {
  events : list Event.t;
  joinedEvents : list Join
}.

Definition join_key (j : Join) : ObjectId * Json := (eventId j, userEmail j).

Section Handler.

(** The store's reading of a filter member [{ field: q }]: the predicate on
    stored values of the field, or [None] when the store refuses [q]. *)
Variable filter_value : Json -> option (Json -> bool).

Definition joined_by (oid : ObjectId) (m : Json -> bool) (j : Join) : Prop :=
  eventId j = oid /\ m (userEmail j) = true.

#[local] Instance joined_by_dec oid m j : Decision (joined_by oid m j).
Proof. unfold joined_by. apply _. Defined.

(** [app.post("/events/:id/join", authenticate, ...)] *)
Definition post_join (env : Env) (user : Identity) (id : string)
    (st : Store) : Store * Response :=
  match ObjectId_of_string id with
  | None => (st, error 500 "Server error")
  | Some oid =>
      match findOne (has_id oid) (events st) with
      | None => (st, error 404 "Event not found")
      | Some event =>
          match filter_value (email user) with
          | None => (st, error 500 "Server error")
          | Some m =>
              match findOne (joined_by oid m) (joinedEvents st) with
              | Some existingJoin =>
                  (st, error 406 "Already joined this event")
              | None =>
                  let joinData :=
                    {| eventId := oid;
                       userEmail := email user;
                       userName := bson (displayName user);
                       userPhotoURL := bson (photoURL user);
                       joinedAt := now env |} in
                  (mkStore (events st) (joinedEvents st ++ [joinData]),
                   mkResponse 201 (MessageBody "Successfully joined event"))
              end
          end
      end
  end.

End Handler.



Definition store1 : Store :=
  mkStore [Sample.cleanup]
          [mkJoin 1%N (JsonScalar (JStr "ann@nest.io")) (JStr "Ann") JNull
                  100].

End Wide.

(** ** Routes, and what a sequence of requests may do to the store *)

(** The routes registered with the [authenticate] middleware. *)
Definition requires_auth (r : Route) : bool :=
  match r with
  | GetEvents _ | GetEvent _ | GetRoot => false
  | _ => true
  end.

Fixpoint has_char (c : ascii) (s : string) : bool :=
  match s with
  | EmptyString => false
  | String c' s' => Ascii.eqb c' c || has_char c s'
  end.

(** What creation writes into an event about its author. *)
Definition authorship (e : Event.t)
    : ObjectId * JsVal * JsVal * JsVal * Date :=
  (Event._id e, Event.userEmail e, Event.userName e, Event.userPhotoURL e,
   Event.createdAt e).

(** [st'] has the join documents of [st] followed by new ones, the events of
    [st] with their authorship followed by new ones, and at least as many
    profiles. *)
Definition extends (st st' : Store) : Prop :=
  (exists joined, joinedEvents st' = joinedEvents st ++ joined)
  /\ (exists created,
        authorship <$> events st' = (authorship <$> events st) ++ created)
  /\ (length (users st) <= length (users st'))%nat.

(** Every stored event has a join document of its owner. *)
Definition owner_joined (st : Store) : Prop :=
  forall e, e ∈ events st ->
    exists j, j ∈ joinedEvents st
              /\ joined_by (Event._id e) (Event.userEmail e) j.

(** * Properties *)

(** ** Collections *)

Section Collections.
Context {A : Type} (P : A -> Prop) `{!forall x, Decision (P x)}.

Lemma findOne_Some (l : list A) x : findOne P l = Some x -> P x /\ x ∈ l.
Proof.
  unfold findOne. intros Hh.
  apply head_Some_elem_of in Hh. by apply list_elem_of_filter in Hh.
Qed.

Lemma findOne_None (l : list A) :
  findOne P l = None <-> forall x, x ∈ l -> ~ P x.
Proof.
  unfold findOne. rewrite head_None. split.
  - intros Hnil x Hx HP. by eapply filter_nil_not_elem_of.
  - intros Hall. induction l as [|y l IH]; [done|].
    rewrite filter_cons. destruct (decide (P y)) as [HP|HP].
    + exfalso. apply (Hall y); [left | done].
    + apply IH. intros x Hx. apply Hall. by right.
Qed.

Lemma findOne_cons (l : list A) y :
  findOne P (y :: l) = if decide (P y) then Some y else findOne P l.
Proof. unfold findOne. rewrite filter_cons. by destruct (decide (P y)). Qed.

Lemma findOne_snoc (l : list A) y :
  findOne P (l ++ [y]) =
  match findOne P l with
  | Some x => Some x
  | None => if decide (P y) then Some y else None
  end.
Proof.
  induction l as [|z l IH]; cbn [app].
  - rewrite findOne_cons. by destruct (decide (P y)).
  - rewrite !findOne_cons. by destruct (decide (P z)).
Qed.

Lemma findOne_update_first f (l : list A) x :
  (forall y, P y -> P (f y)) ->
  findOne P l = Some x ->
  findOne P (update_first P f l) = Some (f x).
Proof.
  intros Hf. induction l as [|y l IH]; [done|].
  rewrite findOne_cons. cbn [update_first].
  destruct (decide (P y)) as [HP|HP].
  - intros [= ->]. rewrite findOne_cons. by rewrite decide_True by auto.
  - intros Hx. rewrite findOne_cons. rewrite decide_False by done. auto.
Qed.

Lemma update_first_length f (l : list A) :
  length (update_first P f l) = length l.
Proof.
  induction l as [|y l IH]; [done|]. simpl.
  destruct (decide (P y)); simpl; congruence.
Qed.

End Collections.


(** A filter that the update does not look at sees the same documents
    in the same places. *)
Lemma findOne_update_first_other {A} (P Q : A -> Prop)
    `{!forall x, Decision (P x), !forall x, Decision (Q x)} f (l : list A) :
  (forall y, P y -> ~ Q y /\ ~ Q (f y)) ->
  findOne Q (update_first P f l) = findOne Q l.
Proof.
  intros Hf. induction l as [|y l IH]; [done|]. cbn [update_first].
  destruct (decide (P y)) as [HP|HP].
  - destruct (Hf y HP) as [H1 H2]. rewrite !findOne_cons.
    by rewrite !decide_False by done.
  - rewrite !findOne_cons. by rewrite IH.
Qed.

Lemma findOne_update_first_is_Some {A} (P Q : A -> Prop)
    `{!forall x, Decision (P x), !forall x, Decision (Q x)} f (l : list A) :
  (forall y, Q (f y) <-> Q y) ->
  is_Some (findOne Q l) -> is_Some (findOne Q (update_first P f l)).
Proof.
  intros Hf. induction l as [|y l IH]; [done|]. cbn [update_first].
  rewrite findOne_cons.
  destruct (decide (P y)) as [HP|HP]; rewrite findOne_cons.
  - destruct (decide (Q y)) as [HQ|HQ].
    + rewrite decide_True by by apply Hf. eauto.
    + rewrite decide_False by by rewrite Hf. done.
  - destruct (decide (Q y)); eauto.
Qed.

Lemma prop_absent (o : Obj) k : k ∉ (fst <$> o) -> prop o k = JUndefined.
Proof.
  induction o as [|[k' v] o IH]; [done|]. simpl. intros Hk.
  apply not_elem_of_cons in Hk as [Hne Hk].
  destruct (String.eqb_spec k' k); [congruence | auto].
Qed.

(** ** Identity extraction *)

(** Every rejection of the middleware is a 401. *)
Lemma authenticate_rejects_401 decode_payload authorization code msg :
  authenticate decode_payload authorization = AuthReject code msg ->
  code = 401%nat.
Proof.
  unfold authenticate, identity_of. intros Hr.
  repeat (match type of Hr with
          | context [match ?x with _ => _ end] => destruct x
          end; try congruence).
Qed.

(** C8, as the code has it: when the decoded payload is an object, a truthy
    [email] member becomes the identity's email unchanged, [displayName] is
    the payload's [name] when truthy and ["Anonymous"] otherwise, [photoURL]
    is its [picture] when truthy and [null] otherwise; an object payload
    whose [email] is falsy or that has no [email] member, and a payload that
    is no object at all, are answered 401. *)
Theorem authenticate_identity decode_payload authHeader token payload
    decodedPayload :
  startsWith authHeader "Bearer " = true ->
  split " " authHeader !! 1%nat = Some token ->
  token <> "" ->
  split "." token !! 1%nat = Some payload ->
  decode_payload payload = Some decodedPayload ->
  match decodedPayload with
  | JsonObject o =>
      (truthy (prop o "email") = true ->
       authenticate decode_payload (Some authHeader) =
       AuthNext
         {| User.email := prop o "email";
            User.displayName :=
              if truthy (prop o "name") then prop o "name"
              else JStr "Anonymous";
            User.photoURL :=
              if truthy (prop o "picture") then prop o "picture"
              else JNull |})
      /\ (truthy (prop o "email") = false ->
          authenticate decode_payload (Some authHeader) =
          AuthReject 401 "Invalid token format")
      /\ ("email" ∉ (fst <$> o) ->
          authenticate decode_payload (Some authHeader) =
          AuthReject 401 "Invalid token format")
  | JsonScalar _ | JsonArray =>
      authenticate decode_payload (Some authHeader) =
      AuthReject 401 "Invalid token format"
  end.
Proof.
  intros Hpre Htok Hne Hpay Hdec.
  assert (Hgo : authenticate decode_payload (Some authHeader)
                = identity_of decodedPayload).
  { unfold authenticate. rewrite Hpre, Htok. simpl.
    apply String.eqb_neq in Hne. by rewrite Hne, Hpay, Hdec. }
  rewrite Hgo. unfold identity_of, js_or.
  destruct decodedPayload as [v|o|]; [by destruct v | | done].
  simpl. split; [|split].
  - by intros ->.
  - by intros ->.
  - intros Habs. by rewrite (prop_absent _ _ Habs).
Qed.

Lemma authenticate_identity_witness :
  authenticate Sample.decode (Some Sample.ann_token) = AuthNext Sample.ann.
Proof.
  refine (proj1 (authenticate_identity Sample.decode Sample.ann_token
    "h.eyJlbWFpbCI6ImFubkBuZXN0LmlvIiwibmFtZSI6IkFubiJ9.s"
    "eyJlbWFpbCI6ImFubkBuZXN0LmlvIiwibmFtZSI6IkFubiJ9"
    (JsonObject [("email", JStr "ann@nest.io"); ("name", JStr "Ann")])
    _ _ _ _ _) _); try reflexivity.
  discriminate.
Defined.

(** C8 as stated fails: the payload [{"email":""}] has an [email] member,
    and the request is answered 401 instead of getting an identity. *)
Lemma authenticate_empty_email_rejected :
  Sample.decode "eyJlbWFpbCI6IiJ9" = Some (JsonObject [("email", JStr "")])
  /\ "email" ∈ (fst <$> [("email", JStr "")])
  /\ authenticate Sample.decode (Some Sample.empty_email_token)
     = AuthReject 401 "Invalid token format"
  /\ ~ exists user,
         authenticate Sample.decode (Some Sample.empty_email_token)
         = AuthNext user.
Proof.
  split; [reflexivity|]. split; [by left|]. split; [reflexivity|].
  intros [user Hu]. vm_compute in Hu. discriminate.
Qed.

(** ** Creating an event *)

(** C9: when one of title, description, eventType, location and eventDate
    is absent or falsy, [POST /events] answers 400 and the store is the one
    it was given: no event and no join document is written. *)
Theorem post_events_missing_field newDate env user (body : EventBody.t) st :
  truthy (EventBody.title body) = false
  \/ truthy (EventBody.description body) = false
  \/ truthy (EventBody.eventType body) = false
  \/ truthy (EventBody.location body) = false
  \/ truthy (EventBody.eventDate body) = false ->
  post_events newDate env user body st
  = (st, error 400 "Missing required fields").
Proof.
  intros Hmiss. unfold post_events.
  destruct Hmiss as [H|[H|[H|[H|H]]]]; rewrite H; simpl;
    by rewrite ?orb_true_r.
Qed.

Lemma post_events_missing_field_witness :
  post_events Sample.newDate (Sample.at_ 10 1) Sample.ann
    (EventBody.mk (JStr "Picnic") (JStr "In the park") (JStr "Social")
                  JUndefined (JStr "") (JNum 5000))
    Sample.store1
  = (Sample.store1, error 400 "Missing required fields").
Proof.
  apply post_events_missing_field. right. right. right. left. reflexivity.
Defined.

(** ** Updating an event *)

(** C3: a caller whose email is not the stored event's [userEmail] gets 403
    from [PUT /events/:id], and the store is returned as it was. *)
Theorem put_event_non_owner newDate env user id body st eventId event :
  ObjectId_of_string id = Some eventId ->
  findOne_event eventId st = Some event ->
  Event.userEmail event <> User.email user ->
  put_event newDate env user id body st
  = (st, error 403 "Unauthorized - Can only update own events").
Proof.
  intros Hid Hev Hne. unfold put_event, strict_eq. rewrite Hid, Hev.
  by rewrite bool_decide_eq_false_2.
Qed.

Lemma put_event_non_owner_witness :
  put_event Sample.newDate (Sample.at_ 10 1) Sample.bob Sample.id1
    Sample.picnic Sample.store1
  = (Sample.store1, error 403 "Unauthorized - Can only update own events").
Proof.
  apply (put_event_non_owner _ _ _ _ _ _ 1%N Sample.cleanup);
    [reflexivity | reflexivity | discriminate].
Defined.

Lemma updateData_id newDate env body event :
  Event._id (updateData newDate env body event) = Event._id event.
Proof. reflexivity. Qed.

(** C4: a [PUT /events/:id] that answers 200 leaves the event's [_id], its
    owner members [userEmail], [userName], [userPhotoURL] and its
    [createdAt] as they were; every other event, the join documents and the
    profiles are untouched. *)
Theorem put_event_keeps_owner newDate env user id body st eventId event :
  ObjectId_of_string id = Some eventId ->
  findOne_event eventId st = Some event ->
  status (snd (put_event newDate env user id body st)) = 200%nat ->
  exists event',
    findOne_event eventId (fst (put_event newDate env user id body st))
    = Some event'
    /\ Event._id event' = Event._id event
    /\ Event.userEmail event' = Event.userEmail event
    /\ Event.userName event' = Event.userName event
    /\ Event.userPhotoURL event' = Event.userPhotoURL event
    /\ Event.createdAt event' = Event.createdAt event
    /\ (forall oid, oid <> eventId ->
        findOne_event oid (fst (put_event newDate env user id body st))
        = findOne_event oid st)
    /\ length (events (fst (put_event newDate env user id body st)))
       = length (events st)
    /\ joinedEvents (fst (put_event newDate env user id body st))
       = joinedEvents st
    /\ users (fst (put_event newDate env user id body st)) = users st.
Proof.
  intros Hid Hev. unfold put_event. rewrite Hid, Hev.
  destruct (negb _); [discriminate|]. intros _. cbn [fst snd].
  exists (updateData newDate env body event). repeat split.
  - unfold findOne_event, set_event. cbn [events].
    apply findOne_update_first; [|exact Hev].
    intros y Hy. unfold has_id in *. by rewrite updateData_id.
  - intros oid Hne. unfold findOne_event, set_event. cbn [events].
    apply findOne_update_first_other. intros y Hy. unfold has_id in *.
    rewrite updateData_id. split; congruence.
  - unfold set_event. cbn [events]. apply update_first_length.
Qed.

Lemma put_event_keeps_owner_witness :
  exists event',
    findOne_event 1%N
      (fst (put_event Sample.newDate (Sample.at_ 10 1) Sample.ann Sample.id1
              Sample.picnic Sample.store1))
    = Some event'
    /\ Event.title event' = JStr "Picnic"
    /\ Event.userEmail event' = JStr "ann@nest.io"
    /\ Event.createdAt event' = 100.
Proof.
  destruct (put_event_keeps_owner Sample.newDate (Sample.at_ 10 1) Sample.ann
              Sample.id1 Sample.picnic Sample.store1 1%N Sample.cleanup)
    as (event' & Hfind & _ & Hmail & _ & _ & Hcreated & _);
    [reflexivity | reflexivity | reflexivity |].
  exists event'. repeat split; try assumption.
  vm_compute in Hfind. by injection Hfind as <-.
Defined.

(** ** Joining an event *)




(** C2 as stated fails for the creator of an event: creation has already
    written the creator's join document, so the creator's first call of
    [POST /events/:id/join] answers 406. *)
Lemma creator_first_join_rejected :
  let create :=
    mkRequest (Some Sample.ann_token) (PostEvents Sample.picnic)
              (Sample.at_ 10 1) in
  let join :=
    mkRequest (Some Sample.ann_token) (PostJoin Sample.id1)
              (Sample.at_ 20 2) in
  let serve := serve Sample.newDate dotted_regex_i Sample.decode in
  status (snd (serve create empty_store)) = 201%nat
  /\ status (snd (serve join (fst (serve create empty_store)))) = 406%nat
  /\ status (snd (serve join (fst (serve create empty_store)))) <> 201%nat.
Proof. vm_compute. repeat split; discriminate. Qed.


(** ** Profiles *)



(** ** Reading events *)

#[global] Instance by_eventDate_trans : Transitive by_eventDate.
Proof. unfold by_eventDate. intros x y z. lia. Qed.

#[global] Instance by_eventDate_total : Total by_eventDate.
Proof. unfold by_eventDate. intros x y. lia. Qed.

Lemma StronglySorted_take {A} (R : relation A) n (l : list A) :
  StronglySorted R l -> StronglySorted R (take n l).
Proof.
  intros Hs. revert n. induction Hs as [|x l Hs IH Hx]; intros [|n]; simpl;
    constructor; auto using Forall_take.
Qed.

Lemma cursor_limit_subseteq {A} n (l : list A) : cursor_limit n l ⊆ l.
Proof. unfold cursor_limit. destruct (n =? 0); [done | apply subseteq_take]. Qed.

Lemma cursor_limit_sorted {A} (R : relation A) n (l : list A) :
  StronglySorted R l -> StronglySorted R (cursor_limit n l).
Proof.
  unfold cursor_limit. destruct (n =? 0); auto using StronglySorted_take.
Qed.

Lemma enrich_event st (evs : list Event.t) :
  EventView.event <$> (enrich st <$> evs) = evs.
Proof. induction evs as [|e evs IH]; [done|]. simpl. by f_equal. Qed.

(** The events a listing answers with. *)
Lemma get_events_views regex_i env q st :
  views_of (get_events regex_i env q st) = []
  \/ exists title_matches,
       views_of (get_events regex_i env q st)
       = enrich st <$>
           cursor_limit (default 0 (parseInt (limit q)))
             (merge_sort by_eventDate
                (filter (events_query env q title_matches) (events st))).
Proof.
  unfold get_events. destruct (given (search q)) as [s|].
  - destruct (regex_i s) as [m|]; [right; by exists m | by left].
  - right. by eexists.
Qed.

(** C1, as the code has it: every event answered by [GET /events] and
    [GET /manage/events] is a stored event whose [participants] are exactly
    the projections of the join documents with its [_id] as [eventId], in
    store order, and whose [participantsCount] is the length of that array.
    [GET /events/:id] answers the stored event with the same join documents
    projected with their [joinedAt], and adds no [participantsCount]. *)
Theorem participants_of_views regex_i env q user id st :
  (forall v,
     v ∈ views_of (get_events regex_i env q st)
     \/ v ∈ views_of (get_manage_events user st) ->
     EventView.event v ∈ events st
     /\ EventView.participants v
        = (project <$> filter (joins_of (Event._id (EventView.event v)))
                              (joinedEvents st))
     /\ EventView.participantsCount v
        = Some (length (EventView.participants v)))
  /\ (forall v,
        v ∈ views_of (get_event id st) ->
        EventView.event v ∈ events st
        /\ EventView.participants v
           = (project_joinedAt <$>
                filter (joins_of (Event._id (EventView.event v)))
                       (joinedEvents st))
        /\ EventView.participantsCount v = None).
Proof.
  split.
  - intros v Hv.
    assert (Hen : exists e, v = enrich st e /\ e ∈ events st).
    { destruct Hv as [Hv|Hv].
      - destruct (get_events_views regex_i env q st) as [Hnil|[m Hm]].
        + rewrite Hnil in Hv. by apply elem_of_nil in Hv.
        + rewrite Hm in Hv. apply list_elem_of_fmap in Hv as (e & -> & He).
          exists e. split; [done|].
          apply cursor_limit_subseteq in He.
          rewrite merge_sort_Permutation in He.
          by apply list_elem_of_filter in He as [_ He].
      - unfold get_manage_events, views_of in Hv. cbn [body] in Hv.
        apply list_elem_of_fmap in Hv as (e & -> & He).
        exists e. split; [done|].
        rewrite merge_sort_Permutation in He.
        by apply list_elem_of_filter in He as [_ He]. }
    destruct Hen as (e & -> & He). by repeat split.
  - intros v. unfold get_event.
    destruct (ObjectId_of_string id) as [eventId|]; [|by intros ?%elem_of_nil].
    destruct (findOne_event eventId st) as [event|] eqn:Hev;
      [|by intros ?%elem_of_nil].
    unfold views_of. cbn [body]. intros ->%list_elem_of_singleton.
    apply findOne_Some in Hev as [Hid Hev]. unfold has_id in Hid.
    cbn. by rewrite Hid.
Qed.

Lemma participants_of_views_witness :
  EventView.participants (enrich Sample.store1 Sample.cleanup)
  = [Participant.mk (JStr "ann@nest.io") (JStr "Ann") JNull None]
  /\ EventView.participantsCount (enrich Sample.store1 Sample.cleanup)
     = Some (length (EventView.participants
                       (enrich Sample.store1 Sample.cleanup))).
Proof.
  assert (Hv : enrich Sample.store1 Sample.cleanup
               ∈ views_of (get_events dotted_regex_i (Sample.at_ 10 0)
                             (mkQuery (Some "Cleanup") None (Some "5"))
                             Sample.store1)).
  { vm_compute. left. }
  destruct (proj1 (participants_of_views dotted_regex_i (Sample.at_ 10 0)
                     (mkQuery (Some "Cleanup") None (Some "5"))
                     Sample.ann Sample.id1 Sample.store1) _ (or_introl Hv))
    as (_ & Hp & Hc).
  split; [reflexivity | exact Hc].
Defined.

(** C1 as stated fails on [GET /events/:id]: the answer for the sample event
    has one participant and no [participantsCount] member. *)
Lemma get_event_without_count :
  exists v,
    views_of (get_event Sample.id1 Sample.store1) = [v]
    /\ length (EventView.participants v) = 1%nat
    /\ EventView.participantsCount v = None
    /\ EventView.participantsCount v
       <> Some (length (EventView.participants v)).
Proof. eexists. split; [reflexivity|]. by repeat split. Qed.

(** C6: every event [GET /events] answers with is a stored event whose
    [eventDate] is not before the request's time, so no stored event that
    lies strictly in the past is answered; and the answered events are in
    ascending order of [eventDate]. *)
Theorem get_events_upcoming_sorted regex_i env q st :
  (forall e,
     e ∈ (EventView.event <$> views_of (get_events regex_i env q st)) ->
     e ∈ events st /\ now env <= Event.eventDate e)
  /\ (forall e,
        e ∈ events st -> Event.eventDate e < now env ->
        e ∉ (EventView.event <$> views_of (get_events regex_i env q st)))
  /\ StronglySorted by_eventDate
       (EventView.event <$> views_of (get_events regex_i env q st)).
Proof.
  assert (Hup : forall e,
    e ∈ (EventView.event <$> views_of (get_events regex_i env q st)) ->
    e ∈ events st /\ now env <= Event.eventDate e).
  { intros e He.
    destruct (get_events_views regex_i env q st) as [Hnil|[m Hm]].
    - rewrite Hnil in He. by apply elem_of_nil in He.
    - rewrite Hm, enrich_event in He. apply cursor_limit_subseteq in He.
      rewrite merge_sort_Permutation in He.
      apply list_elem_of_filter in He as [(Hdate & _) He]. done. }
  split; [exact Hup|]. split.
  - intros e _ Hpast Hin. apply Hup in Hin as [_ Hin]. lia.
  - destruct (get_events_views regex_i env q st) as [Hnil|[m Hm]].
    + rewrite Hnil. constructor.
    + rewrite Hm, enrich_event. apply cursor_limit_sorted.
      apply StronglySorted_merge_sort; apply _.
Qed.

Lemma get_events_upcoming_sorted_witness :
  let past :=
    Event.mk 2%N (JStr "Old") (JStr "Gone") (JStr "Social") JNull
             (JStr "Dhaka") 50 (JStr "bob@nest.io") (JStr "Bob") JNull 1 1 in
  let st := mkStore [Sample.cleanup; past] [Sample.ann_joined] [] in
  let q := mkQuery None None None in
  (past ∉ (EventView.event <$>
             views_of (get_events dotted_regex_i (Sample.at_ 100 0) q st)))
  /\ (EventView.event <$>
        views_of (get_events dotted_regex_i (Sample.at_ 100 0) q st))
     = [Sample.cleanup].
Proof.
  intros past st q. split; [|reflexivity].
  apply (proj1 (proj2 (get_events_upcoming_sorted dotted_regex_i
                         (Sample.at_ 100 0) q st)) past).
  - right. by left.
  - reflexivity.
Defined.

(** ** One join document per event and user *)


Lemma findOne_event_snoc oid e st :
  is_Some (findOne_event oid st) ->
  is_Some (findOne_event oid
             (mkStore (events st ++ [e]) (joinedEvents st) (users st))).
Proof.
  unfold findOne_event. cbn [events]. rewrite findOne_snoc.
  by intros [x ->].
Qed.

Lemma insertOne_join_ok j st :
  store_ok st ->
  is_Some (findOne_event (Join.eventId j) st) ->
  (forall j', j' ∈ joinedEvents st ->
     ~ joined_by (Join.eventId j) (Join.userEmail j) j') ->
  store_ok (insertOne_join j st).
Proof.
  intros [Huniq Hrefer] Hev Hnew. split.
  - unfold joins_unique, insertOne_join in *. cbn [joinedEvents].
    rewrite fmap_app. apply NoDup_app. split; [done|]. split.
    + intros k Hk Hk'. apply list_elem_of_singleton in Hk'. subst k.
      apply list_elem_of_fmap in Hk as (j' & Hkey & Hj').
      apply (Hnew j' Hj'). unfold join_key in Hkey.
      injection Hkey as H1 H2. by split.
    + apply NoDup_singleton.
  - intros j' Hj'. unfold insertOne_join in *. cbn [joinedEvents] in Hj'.
    apply elem_of_app in Hj' as [Hj'|Hj'].
    + by apply Hrefer.
    + apply list_elem_of_singleton in Hj'. by subst j'.
Qed.

Lemma post_join_ok env user id st :
  store_ok st -> store_ok (fst (post_join env user id st)).
Proof.
  intros Hok. unfold post_join.
  destruct (ObjectId_of_string id) as [eventId|]; [|done].
  destruct (findOne_event eventId st) as [event|] eqn:Hev; [|done].
  destruct (findOne _ (joinedEvents st)) as [existingJoin|] eqn:Hjoin; [done|].
  cbn [fst]. apply insertOne_join_ok; cbn [Join.eventId Join.userEmail];
    [done | by rewrite Hev |].
  by apply (findOne_None (joined_by _ _)).
Qed.

Lemma post_events_ok newDate env user body st :
  store_ok st -> store_ok (fst (post_events newDate env user body st)).
Proof.
  intros Hok. unfold post_events.
  destruct (_ || _); [done|].
  set (event := Event.mk _ _ _ _ _ _ _ _ _ _ _ _).
  unfold insertOne_event. change (Event._id event) with (fresh_id env).
  destruct (findOne_event (fresh_id env) st) as [taken|] eqn:Hfresh; [done|].
  set (st1 := mkStore _ _ _).
  assert (Hok1 : store_ok st1).
  { destruct Hok as [Huniq Hrefer]. split; [done|].
    intros j Hj. apply findOne_event_snoc. by apply Hrefer. }
  destruct (findOne_event (fresh_id env) st1) as [insertedEvent|] eqn:Hins;
    [|done].
  cbn [fst]. apply findOne_Some in Hins as Hid. destruct Hid as [Hid _].
  unfold has_id in Hid.
  apply insertOne_join_ok; cbn [Join.eventId Join.userEmail]; [done | |].
  - rewrite Hid. by rewrite Hins.
  - intros j Hj [Hjid _]. rewrite Hid in Hjid.
    destruct Hok as [_ Hrefer]. specialize (Hrefer j Hj).
    rewrite Hjid, Hfresh in Hrefer. by destruct Hrefer.
Qed.

Lemma put_event_ok newDate env user id body st :
  store_ok st -> store_ok (fst (put_event newDate env user id body st)).
Proof.
  intros Hok. unfold put_event.
  destruct (ObjectId_of_string id) as [eventId|]; [|done].
  destruct (findOne_event eventId st) as [event|]; [|done].
  destruct (negb _); [done|]. cbn [fst].
  destruct Hok as [Huniq Hrefer]. split; [done|].
  intros j Hj. unfold findOne_event, set_event. cbn [events].
  apply findOne_update_first_is_Some; [|by apply Hrefer].
  intros y. unfold has_id. by rewrite updateData_id.
Qed.

Lemma post_users_ok env user body st :
  store_ok st -> store_ok (fst (post_users env user body st)).
Proof. intros [Huniq Hrefer]. by split. Qed.

Lemma serve_ok newDate regex_i decode_payload req st :
  store_ok st -> store_ok (fst (serve newDate regex_i decode_payload req st)).
Proof.
  intros Hok. unfold serve, protected.
  destruct (route req); try done;
    destruct (authenticate decode_payload (authorization req)); try done;
    auto using post_users_ok, post_events_ok, put_event_ok, post_join_ok.
Qed.




(** ** Searching titles *)










(** * Further properties of the handlers *)

(** ** The middleware *)

(** Every answer of [authenticate] is a 401 or an identity whose [email] and
    [displayName] are truthy and whose [photoURL] is [null] or truthy. *)
Theorem authenticate_outcome decode_payload authorization :
  match authenticate decode_payload authorization with
  | AuthReject code _ => code = 401%nat
  | AuthNext user =>
      truthy (User.email user) = true
      /\ truthy (User.displayName user) = true
      /\ (User.photoURL user = JNull \/ truthy (User.photoURL user) = true)
  end.
Proof.
  unfold authenticate.
  destruct authorization as [authHeader|]; [|done].
  destruct (negb _); [done|].
  destruct (split " " authHeader !! 1%nat) as [token|]; [|done].
  destruct (String.eqb token ""); [done|].
  destruct (split "." token !! 1%nat) as [payload|]; [|done].
  destruct (decode_payload payload) as [decodedPayload|]; [|done].
  unfold identity_of.
  destruct (member decodedPayload "email") as [e|]; [|done].
  destruct (truthy e) eqn:He; [|done]. cbn [negb User.email User.displayName
    User.photoURL]. split; [done|]. unfold js_or. split.
  - by destruct (truthy (default JUndefined (member decodedPayload "name")))
      eqn:Hn.
  - destruct (truthy (default JUndefined (member decodedPayload "picture")))
      eqn:Hp; auto.
Qed.

Lemma split_no_separator sep s : has_char sep s = false -> split sep s = [s].
Proof.
  induction s as [|c s IH]; [done|]. simpl. intros Hs.
  apply orb_false_iff in Hs as [Hc Hs]. by rewrite Hc, IH.
Qed.

(** A bearer token with no dot in it has no payload segment: the request is
    answered 401 whatever the decoder would make of the token. *)
Theorem authenticate_token_without_dot decode_payload token :
  token <> "" ->
  has_char " " token = false ->
  has_char "." token = false ->
  authenticate decode_payload (Some ("Bearer " +:+ token))
  = AuthReject 401 "Invalid token format".
Proof.
  intros Hne Hsp Hdot. unfold authenticate.
  assert (Hpre : startsWith ("Bearer " +:+ token) "Bearer " = true).
  { unfold startsWith. simpl. by destruct token. }
  rewrite Hpre. cbn [negb].
  assert (Hsplit : split " " ("Bearer " +:+ token) = ["Bearer"; token]).
  { simpl. change ("" +:+ token) with token.
    by rewrite (split_no_separator _ _ Hsp). }
  rewrite Hsplit. cbn [lookup list_lookup].
  apply String.eqb_neq in Hne. rewrite Hne.
  by rewrite (split_no_separator _ _ Hdot).
Qed.

Lemma authenticate_token_without_dot_witness :
  authenticate Sample.decode (Some "Bearer eyJlbWFpbCI6ImJvYkBuZXN0LmlvIn0")
  = AuthReject 401 "Invalid token format".
Proof.
  apply (authenticate_token_without_dot Sample.decode
           "eyJlbWFpbCI6ImJvYkBuZXN0LmlvIn0"); [discriminate | done | done].
Defined.

(** ** Routing *)

(** On a route registered with the middleware, a request the middleware
    rejects is answered with that rejection and the store is the one it
    was. *)
Theorem rejected_request_no_effect newDate regex_i decode_payload req st
    code msg :
  requires_auth (route req) = true ->
  authenticate decode_payload (authorization req) = AuthReject code msg ->
  serve newDate regex_i decode_payload req st = (st, error 401 msg).
Proof.
  intros Hroute Hauth.
  assert (code = 401%nat) as -> by by eapply authenticate_rejects_401.
  unfold serve, protected. rewrite Hauth. by destruct (route req).
Qed.

Lemma rejected_request_no_effect_witness :
  serve Sample.newDate dotted_regex_i Sample.decode
    (mkRequest None (PostEvents Sample.picnic) (Sample.at_ 10 1))
    Sample.store1
  = (Sample.store1, error 401 "Unauthorized - No token provided").
Proof.
  apply (rejected_request_no_effect _ _ _ _ _ 401%nat); reflexivity.
Defined.

(** ** Creating, then reading *)

Lemma bson_truthy v : truthy v = true -> bson v = v.
Proof. by destruct v. Qed.

(** With the five required members truthy and an identifier the store does
    not hold yet, [POST /events] answers 201 with the stored event: it has
    the body's members as given, the caller as owner, and the first and the
    second reading of the clock as [createdAt] and [updatedAt]; the store
    gains this event and one join document of the caller for it, whose
    [joinedAt] is the third reading, and nothing else changes. *)
Theorem post_events_created newDate env user (body : EventBody.t) st :
  truthy (EventBody.title body) = true ->
  truthy (EventBody.description body) = true ->
  truthy (EventBody.eventType body) = true ->
  truthy (EventBody.location body) = true ->
  truthy (EventBody.eventDate body) = true ->
  findOne_event (fresh_id env) st = None ->
  let event :=
    {| Event._id := fresh_id env;
       Event.title := EventBody.title body;
       Event.description := EventBody.description body;
       Event.eventType := EventBody.eventType body;
       Event.thumbnailImage := bson (EventBody.thumbnailImage body);
       Event.location := EventBody.location body;
       Event.eventDate := newDate (EventBody.eventDate body);
       Event.userEmail := bson (User.email user);
       Event.userName := bson (User.displayName user);
       Event.userPhotoURL := bson (User.photoURL user);
       Event.createdAt := now env;
       Event.updatedAt := now2 env |} in
  let joinData :=
    {| Join.eventId := fresh_id env;
       Join.userEmail := bson (User.email user);
       Join.userName := bson (User.displayName user);
       Join.userPhotoURL := bson (User.photoURL user);
       Join.joinedAt := now3 env |} in
  post_events newDate env user body st
  = (mkStore (events st ++ [event]) (joinedEvents st ++ [joinData]) (users st),
     mkResponse 201 (EventBody event))
  /\ findOne_event (fresh_id env) (fst (post_events newDate env user body st))
     = Some event.
Proof.
  intros Ht Hd Hty Hl Hdate Hfresh event joinData.
  assert (Hpost : post_events newDate env user body st
    = (mkStore (events st ++ [event]) (joinedEvents st ++ [joinData])
               (users st),
       mkResponse 201 (EventBody event))).
  { unfold post_events. rewrite Ht, Hd, Hty, Hl, Hdate. cbn [negb orb].
    rewrite (bson_truthy _ Ht), (bson_truthy _ Hd), (bson_truthy _ Hty),
      (bson_truthy _ Hl). fold event.
    unfold insertOne_event. change (Event._id event) with (fresh_id env).
    rewrite Hfresh. unfold findOne_event at 1. cbn [events].
    unfold findOne_event in Hfresh. rewrite findOne_snoc, Hfresh.
    rewrite decide_True by done. done. }
  split; [exact Hpost|]. rewrite Hpost. cbn [fst].
  unfold findOne_event in *. cbn [events].
  rewrite findOne_snoc, Hfresh. by rewrite decide_True.
Qed.

Lemma post_events_created_witness :
  post_events Sample.newDate (mkEnv 10 2%N 11 15) Sample.bob Sample.picnic
    Sample.store1
  = (mkStore
       [Sample.cleanup;
        Event.mk 2%N (JStr "Picnic") (JStr "In the park") (JStr "Social")
          JNull (JStr "Dhaka") 5000 (JStr "bob@nest.io") (JStr "Anonymous")
          JNull 10 11]
       [Sample.ann_joined;
        Join.mk 2%N (JStr "bob@nest.io") (JStr "Anonymous") JNull 15]
       [],
     mkResponse 201
       (EventBody
          (Event.mk 2%N (JStr "Picnic") (JStr "In the park") (JStr "Social")
             JNull (JStr "Dhaka") 5000 (JStr "bob@nest.io")
             (JStr "Anonymous") JNull 10 11))).
Proof.
  apply (post_events_created Sample.newDate (mkEnv 10 2%N 11 15) Sample.bob
           Sample.picnic Sample.store1); reflexivity.
Defined.

(** ** Identifiers that do not resolve *)

(** When [new ObjectId(id)] throws, [GET /events/:id], [PUT /events/:id] and
    [POST /events/:id/join] answer 500; when it gives an identifier no stored
    event has, they answer 404.  In both cases the store is as it was. *)
Theorem unresolved_id newDate env user id body st :
  (ObjectId_of_string id = None ->
   get_event id st = error 500 "Server error"
   /\ put_event newDate env user id body st = (st, error 500 "Server error")
   /\ post_join env user id st = (st, error 500 "Server error"))
  /\ (forall eventId,
        ObjectId_of_string id = Some eventId ->
        (forall e, e ∈ events st -> Event._id e <> eventId) ->
        get_event id st = error 404 "Event not found"
        /\ put_event newDate env user id body st
           = (st, error 404 "Event not found")
        /\ post_join env user id st = (st, error 404 "Event not found")).
Proof.
  split.
  - intros Hid. unfold get_event, put_event, post_join. by rewrite Hid.
  - intros eventId Hid Hnone.
    assert (Hfind : findOne_event eventId st = None).
    { apply findOne_None. intros e He Hh. by apply (Hnone e He). }
    unfold get_event, put_event, post_join. by rewrite Hid, Hfind.
Qed.

Lemma unresolved_id_witness :
  post_join (Sample.at_ 10 2) Sample.bob "42" Sample.store1
  = (Sample.store1, error 500 "Server error")
  /\ put_event Sample.newDate (Sample.at_ 10 2) Sample.ann
       "0000000000000000000000ff" Sample.picnic Sample.store1
     = (Sample.store1, error 404 "Event not found").
Proof.
  split.
  - apply (proj1 (unresolved_id Sample.newDate (Sample.at_ 10 2) Sample.bob
                    "42" Sample.picnic Sample.store1)). reflexivity.
  - apply (proj2 (unresolved_id Sample.newDate (Sample.at_ 10 2) Sample.ann
                    "0000000000000000000000ff" Sample.picnic Sample.store1)
             255%N); [reflexivity|].
    intros e He. apply list_elem_of_singleton in He. by subst e.
Defined.

(** ** Profiles *)

Lemma upsert_user_findOne email d st :
  Profile.email d = email ->
  findOne (has_email email) (users (upsert_user email d st)) = Some d.
Proof.
  intros Hd. unfold upsert_user. cbn [users].
  destruct (findOne _ (users st)) as [old|] eqn:Hold.
  - by rewrite (findOne_update_first _ _ _ old).
  - rewrite findOne_snoc, Hold. by rewrite decide_True.
Qed.

(** After [POST /users], the caller's [GET /users/:email] for the own
    address answers what the [POST] answered. *)
Theorem post_users_then_get_user env user body st email :
  User.email user = JStr email ->
  get_user user email (fst (post_users env user body st))
  = snd (post_users env user body st).
Proof.
  intros He. unfold post_users, get_user, strict_eq. cbn [fst snd].
  rewrite He. cbn [bson]. rewrite bool_decide_eq_true_2 by done. cbn [negb].
  by rewrite upsert_user_findOne.
Qed.

Lemma post_users_then_get_user_witness :
  get_user Sample.ann "ann@nest.io"
    (fst (post_users (Sample.at_ 10 1) Sample.ann
            (ProfileBody.mk (JStr "Annie") JUndefined (JsonScalar JNull))
            empty_store))
  = mkResponse 200
      (UserBody
         (Some (Profile.mk (JStr "ann@nest.io") (JStr "Annie") JNull
                           default_preferences 10))).
Proof.
  rewrite (post_users_then_get_user _ _ _ _ "ann@nest.io"); reflexivity.
Defined.

(** ** Updating and joining, then reading *)





(** ** What a sequence of requests keeps *)

Lemma extends_refl st : extends st st.
Proof.
  repeat split; [exists [] | exists [] |]; by rewrite ?app_nil_r.
Qed.

Lemma extends_trans st1 st2 st3 :
  extends st1 st2 -> extends st2 st3 -> extends st1 st3.
Proof.
  intros ([j1 H1] & [c1 H1'] & Hu1) ([j2 H2] & [c2 H2'] & Hu2).
  repeat split.
  - exists (j1 ++ j2). by rewrite H2, H1, app_assoc.
  - exists (c1 ++ c2). by rewrite H2', H1', app_assoc.
  - lia.
Qed.

Lemma update_first_fmap {A B} (P : A -> Prop) `{!forall x, Decision (P x)}
    (g : A -> B) f (l : list A) :
  (forall x, g (f x) = g x) ->
  g <$> update_first P f l = g <$> l.
Proof.
  intros Hg. induction l as [|x l IH]; [done|]. cbn [update_first].
  destruct (decide (P x)); cbn; by rewrite ?Hg, ?IH.
Qed.

Lemma update_first_elem_of {A} (P : A -> Prop) `{!forall x, Decision (P x)}
    f (l : list A) y :
  y ∈ update_first P f l -> y ∈ l \/ exists x, x ∈ l /\ y = f x.
Proof.
  induction l as [|x l IH]; [by intros ?%elem_of_nil|]. cbn [update_first].
  destruct (decide (P x)).
  - intros [->|Hy]%elem_of_cons.
    + right. exists x. split; [by left | done].
    + left. by right.
  - intros [->|Hy]%elem_of_cons.
    + left. by left.
    + destruct (IH Hy) as [Hin|(x' & Hx' & ->)].
      * left. by right.
      * right. exists x'. split; [by right | done].
Qed.

Lemma post_users_extends env user body st :
  extends st (fst (post_users env user body st)).
Proof.
  unfold post_users, upsert_user. cbn [fst].
  repeat split; cbn [joinedEvents events users];
    [exists []; by rewrite app_nil_r | exists []; by rewrite app_nil_r |].
  destruct (findOne _ (users st)).
  - by rewrite update_first_length.
  - rewrite length_app. lia.
Qed.

Lemma post_events_extends newDate env user body st :
  extends st (fst (post_events newDate env user body st)).
Proof.
  unfold post_events. destruct (_ || _); [apply extends_refl|].
  unfold insertOne_event.
  destruct (findOne_event _ st); [apply extends_refl|].
  destruct (findOne_event _ _); cbn [fst];
    repeat split; cbn [joinedEvents events users insertOne_join];
    try (eexists; rewrite fmap_app; reflexivity);
    try (eexists; reflexivity); try lia.
  exists []. by rewrite app_nil_r.
Qed.

Lemma put_event_extends newDate env user id body st :
  extends st (fst (put_event newDate env user id body st)).
Proof.
  unfold put_event.
  destruct (ObjectId_of_string id) as [eventId|]; [|apply extends_refl].
  destruct (findOne_event eventId st) as [event|]; [|apply extends_refl].
  destruct (negb _); [apply extends_refl|]. cbn [fst].
  repeat split; cbn [joinedEvents events users set_event]; [| |lia].
  - exists []. by rewrite app_nil_r.
  - exists []. rewrite app_nil_r. by apply update_first_fmap.
Qed.

Lemma post_join_extends env user id st :
  extends st (fst (post_join env user id st)).
Proof.
  unfold post_join.
  destruct (ObjectId_of_string id) as [eventId|]; [|apply extends_refl].
  destruct (findOne_event eventId st) as [event|]; [|apply extends_refl].
  destruct (findOne _ (joinedEvents st)); [apply extends_refl|]. cbn [fst].
  repeat split; cbn [joinedEvents events users insertOne_join]; [| |lia].
  - eexists; reflexivity.
  - exists []. by rewrite app_nil_r.
Qed.

Lemma serve_extends newDate regex_i decode_payload req st :
  extends st (fst (serve newDate regex_i decode_payload req st)).
Proof.
  unfold serve, protected.
  destruct (route req); try apply extends_refl;
    destruct (authenticate decode_payload (authorization req));
    try apply extends_refl;
    auto using post_users_extends, post_events_extends, put_event_extends,
      post_join_extends.
Qed.

(** No sequence of requests removes or rewrites a join document, removes an
    event or changes an event's [_id], owner members or [createdAt], or
    removes a profile: the join documents and the events' authorship are
    only ever appended to, and the profiles do not get fewer. *)
Theorem requests_only_append newDate regex_i decode_payload reqs st :
  extends st (serve_all newDate regex_i decode_payload reqs st).
Proof.
  revert st. induction reqs as [|req reqs IH]; intros st.
  - apply extends_refl.
  - cbn [serve_all]. eapply extends_trans; [apply serve_extends | apply IH].
Qed.

(** Every join document names a stored event after any sequence of
    requests, when it was so before and no two join documents shared their
    event and email. *)
Theorem joins_keep_referring newDate regex_i decode_payload reqs st :
  store_ok st ->
  joins_refer (serve_all newDate regex_i decode_payload reqs st).
Proof.
  revert st. induction reqs as [|req reqs IH]; intros st Hok.
  - by destruct Hok.
  - cbn [serve_all]. apply IH. by apply serve_ok.
Qed.

Lemma joins_keep_referring_witness :
  joins_refer
    (serve_all Sample.newDate dotted_regex_i Sample.decode
       [mkRequest (Some Sample.bob_token) (PostJoin Sample.id1)
                  (Sample.at_ 20 2);
        mkRequest (Some Sample.bob_token) (PostEvents Sample.picnic)
                  (Sample.at_ 30 2)]
       Sample.store1).
Proof.
  apply joins_keep_referring. split.
  - unfold joins_unique. simpl. apply NoDup_singleton.
  - intros j Hj. apply list_elem_of_singleton in Hj. subst j.
    by exists Sample.cleanup.
Defined.

Lemma owner_joined_snoc_join j st :
  owner_joined st -> owner_joined (insertOne_join j st).
Proof.
  intros Hown e He. destruct (Hown e He) as (j' & Hj' & Hby).
  exists j'. split; [|done]. cbn [insertOne_join joinedEvents].
  apply elem_of_app. by left.
Qed.

Lemma post_events_owner_joined newDate env user body st :
  owner_joined st ->
  owner_joined (fst (post_events newDate env user body st)).
Proof.
  intros Hown. unfold post_events. destruct (_ || _); [done|].
  set (event := Event.mk _ _ _ _ _ _ _ _ _ _ _ _).
  unfold insertOne_event. change (Event._id event) with (fresh_id env).
  destruct (findOne_event (fresh_id env) st) as [taken|] eqn:Hfresh; [done|].
  assert (Hins : findOne_event (fresh_id env)
                   (mkStore (events st ++ [event]) (joinedEvents st)
                            (users st)) = Some event).
  { unfold findOne_event in *. cbn [events].
    rewrite findOne_snoc, Hfresh. by rewrite decide_True. }
  rewrite Hins. cbn [fst]. intros e He.
  cbn [insertOne_join events joinedEvents] in *.
  apply elem_of_app in He as [He|He].
  - destruct (Hown e He) as (j & Hj & Hby). exists j. split; [|done].
    apply elem_of_app. by left.
  - apply list_elem_of_singleton in He. subst e. eexists. split.
    + apply elem_of_app. right. by left.
    + by split.
Qed.

Lemma put_event_owner_joined newDate env user id body st :
  owner_joined st ->
  owner_joined (fst (put_event newDate env user id body st)).
Proof.
  intros Hown. unfold put_event.
  destruct (ObjectId_of_string id) as [eventId|]; [|done].
  destruct (findOne_event eventId st) as [event|]; [|done].
  destruct (negb _); [done|]. cbn [fst]. intros e He.
  cbn [set_event events joinedEvents] in *.
  apply update_first_elem_of in He as [He|(e0 & He0 & ->)]; [by apply Hown|].
  by apply (Hown e0).
Qed.

Lemma serve_owner_joined newDate regex_i decode_payload req st :
  owner_joined st ->
  owner_joined (fst (serve newDate regex_i decode_payload req st)).
Proof.
  intros Hown. unfold serve, protected.
  destruct (route req); try done;
    destruct (authenticate decode_payload (authorization req)); try done;
    auto using post_events_owner_joined, put_event_owner_joined.
  unfold post_join.
  destruct (ObjectId_of_string id) as [eventId|]; [|done].
  destruct (findOne_event eventId st) as [event|]; [|done].
  destruct (findOne _ (joinedEvents st)); [done|].
  by apply owner_joined_snoc_join.
Qed.

(** When every stored event has a join document of its owner - as in the
    empty store - this is still so after any sequence of requests: creation
    writes the creator's join document, and nothing removes it or changes
    the owner. *)
Theorem owner_stays_joined newDate regex_i decode_payload reqs st :
  owner_joined st ->
  owner_joined (serve_all newDate regex_i decode_payload reqs st).
Proof.
  revert st. induction reqs as [|req reqs IH]; intros st Hown; [done|].
  cbn [serve_all]. apply IH. by apply serve_owner_joined.
Qed.

Lemma owner_stays_joined_witness :
  owner_joined
    (serve_all Sample.newDate dotted_regex_i Sample.decode
       [mkRequest (Some Sample.ann_token) (PostEvents Sample.picnic)
                  (Sample.at_ 10 1);
        mkRequest (Some Sample.ann_token)
                  (PutEvent Sample.id1 Sample.picnic) (Sample.at_ 20 2)]
       empty_store).
Proof.
  apply owner_stays_joined. intros e He. by apply elem_of_nil in He.
Defined.

(** ** The token's segments *)

Lemma has_char_app c a b :
  has_char c (a +:+ b) = has_char c a || has_char c b.
Proof.
  induction a as [|x a IH]; [done|]. simpl. by rewrite IH, orb_assoc.
Qed.

Lemma split_app_separator sep a b :
  has_char sep a = false ->
  split sep (a +:+ String sep b) = a :: split sep b.
Proof.
  induction a as [|x a IH]; simpl.
  - intros _. by rewrite Ascii.eqb_refl.
  - intros [Hx Ha]%orb_false_iff. by rewrite Hx, (IH Ha).
Qed.

(** Only the middle segment of the token decides the identity: a credential
    [Bearer h.p.s] is answered by what the decoded [p] gives, whatever the
    header segment [h] and the signature segment [s] are. *)
Theorem authenticate_ignores_signature decode_payload h p s :
  has_char " " h = false -> has_char "." h = false ->
  has_char " " p = false -> has_char "." p = false ->
  has_char " " s = false ->
  authenticate decode_payload
    (Some ("Bearer " +:+ h +:+ "." +:+ p +:+ "." +:+ s))
  = match decode_payload p with
    | Some decodedPayload => identity_of decodedPayload
    | None => AuthReject 401 "Invalid token format"
    end.
Proof.
  intros Hh1 Hh2 Hp1 Hp2 Hs1.
  set (token := h +:+ "." +:+ p +:+ "." +:+ s).
  assert (Hsp : has_char " " token = false).
  { unfold token. rewrite !has_char_app, Hh1, Hp1, Hs1. done. }
  unfold authenticate.
  assert (Hpre : startsWith ("Bearer " +:+ token) "Bearer " = true).
  { unfold startsWith. simpl. by destruct token. }
  rewrite Hpre. cbn [negb].
  assert (Hsplit : split " " ("Bearer " +:+ token) = ["Bearer"; token]).
  { simpl. change ("" +:+ token) with token.
    by rewrite (split_no_separator _ _ Hsp). }
  rewrite Hsplit. cbn [lookup list_lookup].
  assert (Hne : String.eqb token "" = false).
  { apply String.eqb_neq. unfold token. by destruct h. }
  rewrite Hne. unfold token.
  change ("." +:+ p +:+ "." +:+ s) with (String "." (p +:+ String "." s)).
  rewrite (split_app_separator _ _ _ Hh2), (split_app_separator _ _ _ Hp2).
  done.
Qed.

Lemma authenticate_ignores_signature_witness :
  authenticate Sample.decode
    (Some "Bearer other.eyJlbWFpbCI6ImJvYkBuZXN0LmlvIn0.forged")
  = AuthNext Sample.bob.
Proof.
  exact (eq_trans
           (authenticate_ignores_signature Sample.decode "other"
              "eyJlbWFpbCI6ImJvYkBuZXN0LmlvIn0" "forged"
              eq_refl eq_refl eq_refl eq_refl eq_refl)
           eq_refl).
Defined.

(** ** An update that brings nothing *)


